(** * The task service of [task.go]: registry, handlers and completion pipeline

    A shallow embedding of [src/task.go].  The two globals of the program
    ([taskDB.tasks] and [taskIDCounter]) form the state that every handler
    threads; the mutex makes each handler body (and the consumer's write)
    atomic, so a handler is a function from state to state and response.
    Finite maps come from stdpp. *)

From Stdlib Require Import ZArith Lia Ascii String Sorted.
From stdpp Require Import gmap strings list fin_maps sorting.

Local Open Scope Z_scope.

(** ** Go's [int] *)

(** [int] is taken at its 64-bit width (amd64, arm64).  Arithmetic on it
    wraps around in two's complement. *)
Definition int_min : Z := - 2 ^ 63.
Definition int_max : Z := 2 ^ 63 - 1.
Definition int_wrap (z : Z) : Z := (z + 2 ^ 63) `mod` 2 ^ 64 - 2 ^ 63.
Definition int_range (z : Z) : Prop := int_min ≤ z ≤ int_max.

(** ** Data model *)

(** [time.Time], as an instant counted from the epoch. *)
Definition Time : Type := Z.

(** [type Task struct] (lines 13-18). *)
Record Task : Type := mkTask {
  ID : Z;
  Title : string;
  Completed : bool;
  CreatedAt : Time
}.

(** The globals: [taskDB.tasks] (line 23) and [taskIDCounter] (line 26). *)
Record State : Type := mkState {
  tasks : gmap Z Task;
  taskIDCounter : Z
}.

(** The globals as the program initialises them: an empty map, counter 1. *)
Definition initial_state : State := mkState ∅ 1.

(** A Go slice value: [None] is the nil slice, [Some l] a slice with
    elements [l].  [append] never returns nil once an element is added. *)
Definition slice (A : Type) : Type := option (list A).

Definition append {A : Type} (s : slice A) (x : A) : slice A :=
  match s with
  | None => Some [x]
  | Some l => Some (l ++ [x])
  end.

Definition len {A : Type} (s : slice A) : nat :=
  match s with
  | None => 0%nat
  | Some l => length l
  end.

Definition elems {A : Type} (s : slice A) : list A :=
  match s with
  | None => []
  | Some l => l
  end.

(** ** Responses *)

(** The value handed to [respondWithJSON]: a [Task] or a [[]Task]. *)
Inductive data : Type :=
| DTask (t : Task)
| DTasks (s : slice Task).

Inductive Body : Type :=
| Text (msg : string)     (* written by http.Error *)
| JSON (d : data)         (* written by json.NewEncoder(w).Encode(d) *)
| NoBody.

Record Response : Type := mkResponse {
  status : Z;
  body : Body
}.

Definition StatusOK : Z := 200.
Definition StatusCreated : Z := 201.
Definition StatusNoContent : Z := 204.
Definition StatusBadRequest : Z := 400.
Definition StatusNotFound : Z := 404.

(** [http.Error(w, msg, code)]. *)
Definition http_Error (msg : string) (code : Z) : Response :=
  mkResponse code (Text msg).

(** [respondWithJSON] (lines 29-35).  The encoder fails on a [Task] only
    for a creation time whose year lies outside 0..9999; every time the
    program stores comes from [time.Now()], so the error branch of lines
    32-34 is left out. *)
Definition respondWithJSON (code : Z) (d : data) : Response :=
  mkResponse code (JSON d).

(** JSON documents, and what [encoding/json] writes for the two kinds of
    data: the struct tags of [Task] give the field names, a nil slice is
    written [null], any other slice as an array. *)
Local Unset Elimination Schemes.
Inductive json : Type :=
| JNull
| JBool (b : bool)
| JNumber (z : Z)
| JString (s : string)
| JTime (t : Time)        (* the RFC 3339 text of an instant *)
| JArray (l : list json)
| JObject (fields : list (string * json)).
Local Set Elimination Schemes.

Definition encode_Task (t : Task) : json :=
  JObject [("id"%string, JNumber (ID t));
           ("title"%string, JString (Title t));
           ("completed"%string, JBool (Completed t));
           ("created_at"%string, JTime (CreatedAt t))].

Definition Encode (d : data) : json :=
  match d with
  | DTask t => encode_Task t
  | DTasks None => JNull
  | DTasks (Some l) => JArray (encode_Task <$> l)
  end.

(** The JSON document of a response, when it has one. *)
Definition response_json (r : Response) : option json :=
  match body r with
  | JSON d => Some (Encode d)
  | _ => None
  end.

(** ** Requests *)

(** The outcome of [json.NewDecoder(r.Body).Decode(&t)] on a request
    body: an error with its text, or the decoded struct.  Every field of
    [Task] can be present in the body, [id] and [created_at] included. *)
Inductive decoded : Type :=
| DecodeError (msg : string)
| Decoded (t : Task).

(** ** [fmt.Sscanf(taskID, "%d")] as line 107 calls it *)

Inductive scan_error : Type :=
| UnexpectedNewline       (* "unexpected newline" *)
| TooFewOperands.         (* "too few operands for format '%d'" *)

Definition is_blank (c : ascii) : bool :=
  let n := Z.of_N (N_of_ascii c) in
  bool_decide (9 ≤ n ≤ 13) || bool_decide (n = 32).

Definition is_newline (c : ascii) : bool := bool_decide (N_of_ascii c = 10%N).

(** [SkipSpace] of the scanner, in the mode [Sscanf] uses (a newline is
    not a blank): blanks are dropped up to the first other character; a
    newline met on the way is an error.  A carriage return is a blank, so
    the one in front of a newline is dropped like the others.  Only the
    ASCII blanks are told apart here; the wider Unicode ones could only
    change which of the two errors [Sscanf_d] reports. *)
Fixpoint SkipSpace (s : string) : scan_error + string :=
  match s with
  | EmptyString => inr EmptyString
  | String c rest =>
      if is_newline c then inl UnexpectedNewline
      else if is_blank c then SkipSpace rest
      else inr s
  end.

(** The call has a format with one verb and no operand to store into.
    The scanner reaches [%d], skips blanks, and then finds no operand
    left for the verb ([numProcessed >= len(a)], both 0): it stops with
    an error before reading any digit.  The first result is the number of
    operands filled, not a parsed value. *)
Definition Sscanf_d (str : string) : Z * option scan_error :=
  match SkipSpace str with
  | inl e => (0, Some e)
  | inr _ => (0, Some TooFewOperands)
  end.

(** ** The handlers *)

(** [for _, task := range taskDB.tasks { tasks = append(tasks, task) }]
    starting from [var tasks []Task] (lines 42-45), along the order
    [order] in which [range] visits the entries. *)
Definition collect (order : list (Z * Task)) : slice Task :=
  foldl (λ acc kv, append acc kv.2) None order.

(** Go leaves the iteration order of a map open: [order] can be any
    arrangement of the entries of the map. *)
Definition range_order (st : State) (order : list (Z * Task)) : Prop :=
  order ≡ₚ map_to_list (tasks st).

(** [getTasksHandler] (lines 38-48). *)
Definition getTasksHandler (order : list (Z * Task)) (st : State)
  : State * Response :=
  (st, respondWithJSON StatusOK (DTasks (collect order))).

(** [createTaskHandler] (lines 51-67); [now] is the value of
    [time.Now()]. *)
Definition createTaskHandler (req : decoded) (now : Time) (st : State)
  : State * Response :=
  match req with
  | DecodeError msg => (st, http_Error msg StatusBadRequest)
  | Decoded newTask =>
      let newTask :=
        mkTask (taskIDCounter st) (Title newTask) (Completed newTask) now in
      (mkState (<[taskIDCounter st := newTask]> (tasks st))
               (int_wrap (taskIDCounter st + 1)),
       respondWithJSON StatusCreated (DTask newTask))
  end.

(** [updateTaskHandler] (lines 70-93). *)
Definition updateTaskHandler (req : decoded) (st : State)
  : State * Response :=
  match req with
  | DecodeError msg => (st, http_Error msg StatusBadRequest)
  | Decoded updatedTask =>
      match tasks st !! ID updatedTask with
      | None => (st, http_Error "Task not found" StatusNotFound)
      | Some task =>
          let task :=
            mkTask (ID task) (Title updatedTask) (Completed updatedTask)
                   (CreatedAt task) in
          (mkState (<[ID updatedTask := task]> (tasks st))
                   (taskIDCounter st),
           respondWithJSON StatusOK (DTask task))
      end
  end.

(** [delete(taskDB.tasks, id)] (line 120). *)
Definition remove (id : Z) (st : State) : State :=
  mkState (delete id (tasks st)) (taskIDCounter st).

(** [deleteTaskHandler] (lines 96-123); [taskID] is the value of
    [r.URL.Query().Get("id")], the empty string when the parameter is
    absent. *)
Definition deleteTaskHandler (taskID : string) (st : State)
  : State * Response :=
  if decide (taskID = ""%string)
  then (st, http_Error "ID is required" StatusBadRequest)
  else
    let '(id, err) := Sscanf_d taskID in
    match err with
    | Some _ => (st, http_Error "Invalid task ID" StatusBadRequest)
    | None =>
        match tasks st !! id with
        | None => (st, http_Error "Task not found" StatusNotFound)
        | Some _ => (remove id st, mkResponse StatusNoContent NoBody)
        end
    end.

(** ** The completion pipeline *)

(** The body of one goroutine of [processTasksConcurrently] (lines
    129-133): the message it sends, from its own copy of the task. *)
Definition processTask (task : Task) : Task :=
  mkTask (ID task) (Title task) true (CreatedAt task).

(** The consumer's write (lines 158-160): [taskDB.tasks[task.ID] = task]. *)
Definition applyCompletion (task : Task) (st : State) : State :=
  mkState (<[ID task := task]> (tasks st)) (taskIDCounter st).

(** The batch built in [main] (lines 145-149); [t1 t2 t3] are the three
    values of [time.Now()]. *)
Definition startup_tasks (t1 t2 t3 : Time) : list Task :=
  [mkTask 1 "Task 1" false t1;
   mkTask 2 "Task 2" false t2;
   mkTask 3 "Task 3" false t3].

(** ** Requests and runs *)

(** The four routes registered in [main] (lines 139-142), each with what
    its handler reads from the request and from its surroundings. *)
Inductive request : Type :=
| ListTasks (order : list (Z * Task))        (* /tasks *)
| CreateTask (req : decoded) (now : Time)    (* /tasks/create *)
| UpdateTask (req : decoded)                 (* /tasks/update *)
| DeleteTask (taskID : string).              (* /tasks/delete *)

Definition serve (r : request) (st : State) : State * Response :=
  match r with
  | ListTasks order => getTasksHandler order st
  | CreateTask req now => createTaskHandler req now st
  | UpdateTask req => updateTaskHandler req st
  | DeleteTask taskID => deleteTaskHandler taskID st
  end.

(** What can happen to the globals, one atomic step at a time: a request
    is served, the pipeline's consumer writes a message, or a record is
    taken out of the map (line 120 on its own). *)
Inductive event : Type :=
| Http (r : request)
| Completion (task : Task)
| Removal (id : Z).

Definition exec (e : event) (st : State) : State * list Response :=
  match e with
  | Http r => let '(st', resp) := serve r st in (st', [resp])
  | Completion task => (applyCompletion task st, [])
  | Removal id => (remove id st, [])
  end.

(** A run: the final state and the responses, in order. *)
Fixpoint run (evs : list event) (st : State) : State * list Response :=
  match evs with
  | [] => (st, [])
  | e :: evs' =>
      let '(st1, rs1) := exec e st in
      let '(st2, rs2) := run evs' st1 in
      (st2, rs1 ++ rs2)
  end.

(** The id a response reports as created: the id of the task in a 201. *)
Definition created_id (r : Response) : option Z :=
  match body r with
  | JSON (DTask t) =>
      if decide (status r = StatusCreated) then Some (ID t) else None
  | _ => None
  end.

Definition created_ids (rs : list Response) : list Z :=
  omap created_id rs.

(** The number of create requests of a run whose body decodes. *)
Definition is_create (e : event) : bool :=
  match e with
  | Http (CreateTask (Decoded _) _) => true
  | _ => false
  end.

Definition creates (evs : list event) : nat :=
  length (filter (λ e, is_create e = true) evs).

(** Events that leave the set of records alone or add to it through a
    request: no delete request, no removal, no pipeline write. *)
Definition no_delete_no_pipeline (e : event) : bool :=
  match e with
  | Http (DeleteTask _) => false
  | Http _ => true
  | Completion _ => false
  | Removal _ => false
  end.

(** ** The running program: handlers and pipeline interleaved *)

(** The globals together with the pipeline started in [main] (lines
    152-163).  [ch] has no buffer: a send completes only together with
    the consumer's receive, and the consumer receives only when it is
    back at [range ch].  [sent] and [written] record what went through
    the channel and what the consumer wrote, oldest first. *)
Record System : Type := mkSystem {
  globals : State;
  unspawned : list Task;   (* what processTasksConcurrently has still to range over *)
  senders : list Task;     (* goroutines started and not past [ch <- task], with their copies *)
  received : option Task;  (* the message the consumer holds, between receive and write *)
  sent : list Task;
  written : list Task
}.

Inductive action : Type :=
| Spawn                    (* line 129, for the next task of the batch *)
| Send (i : nat)           (* line 132 in goroutine [i] meets line 157 *)
| Write                    (* lines 158-160 *)
| Serve (r : request).     (* a handler, under the lock *)

Definition step (a : action) (s : System) : option System :=
  match a with
  | Spawn =>
      match unspawned s with
      | [] => None
      | task :: rest =>
          Some (mkSystem (globals s) rest (senders s ++ [task])
                         (received s) (sent s) (written s))
      end
  | Send i =>
      match received s, senders s !! i with
      | None, Some task =>
          Some (mkSystem (globals s) (unspawned s) (delete i (senders s))
                         (Some (processTask task))
                         (sent s ++ [processTask task]) (written s))
      | _, _ => None
      end
  | Write =>
      match received s with
      | Some task =>
          Some (mkSystem (applyCompletion task (globals s)) (unspawned s)
                         (senders s) None (sent s) (written s ++ [task]))
      | None => None
      end
  | Serve r =>
      Some (mkSystem (serve r (globals s)).1 (unspawned s) (senders s)
                     (received s) (sent s) (written s))
  end.

(** A schedule is run action by action; it fails at an action that is
    not enabled. *)
Fixpoint schedule (acts : list action) (s : System) : option System :=
  match acts with
  | [] => Some s
  | a :: acts' =>
      match step a s with
      | Some s' => schedule acts' s'
      | None => None
      end
  end.

(** The program right after [go processTasksConcurrently(tasks, ch)] and
    the start of the consumer. *)
Definition boot (batch : list Task) (st : State) : System :=
  mkSystem st batch [] None [] [].

Definition is_pipeline (a : action) : bool :=
  match a with
  | Serve _ => false
  | _ => true
  end.

Definition pipeline_steps (acts : list action) : nat :=
  length (filter (λ a, is_pipeline a = true) acts).

(** The pipeline steps a state still has in front of it: spawn, send and
    write for a task not started, send and write for a goroutine, the
    write for a message held. *)
Definition pending (s : System) : nat :=
  3 * length (unspawned s) + 2 * length (senders s)
  + match received s with Some _ => 1 | None => 0 end.

(** ** Auxiliary notions *)

(** The ids of [n] creates from counter [c] on. *)
Definition ids_from (c : Z) (n : nat) : list Z :=
  (λ j : nat, int_wrap (c + Z.of_nat j)) <$> seq 0 n.

(** Every record is stored under its own id. *)
Definition key_is_id (st : State) : Prop :=
  ∀ id t, tasks st !! id = Some t → ID t = id.

(** The messages already sent together with those still to come. *)
Definition messages (s : System) : list Task :=
  sent s ++ (processTask <$> senders s) ++ (processTask <$> unspawned s).

(** A request body that decodes, and the registry after one create from
    the initial state: one record, under id 1. *)
Definition sample_task : Task := mkTask 0 "A" false 0.
Definition sample_create : event := Http (CreateTask (Decoded sample_task) 0).
Definition one_task_state : State := (run [sample_create] initial_state).1.

(** Kinds of events. *)
Definition is_http (e : event) : bool :=
  match e with
  | Http _ => true
  | _ => false
  end.

Definition is_removal (e : event) : bool :=
  match e with
  | Removal _ => true
  | _ => false
  end.

(** Events that neither add a record nor take one out: every request
    but a create whose body decodes. *)
Definition keeps_records (e : event) : bool :=
  match e with
  | Http (CreateTask (Decoded _) _) => false
  | Http _ => true
  | _ => false
  end.

(** The ids the consumer writes in a run. *)
Definition completion_id (e : event) : option Z :=
  match e with
  | Completion task => Some (ID task)
  | _ => None
  end.

Definition completion_ids (evs : list event) : list Z :=
  omap completion_id evs.

(** The consumer's writes of a list of messages, oldest first. *)
Definition apply_all (ms : list Task) (st : State) : State :=
  foldl (λ acc m, applyCompletion m acc) st ms.

(** The records the pipeline leaves for a batch: each task's message
    under the task's id. *)
Definition batch_records (batch : list Task) : gmap Z Task :=
  list_to_map ((λ task, (ID task, processTask task)) <$> batch).

(** What identifies a record for good: its id and its creation time. *)
Definition identity (task : Task) : Z * Time := (ID task, CreatedAt task).

(** [len(taskDB.tasks)] is an [int]: the map of a state the program
    can be in holds at most [int_max] records. *)
Definition map_fits (st : State) : Prop :=
  Z.of_nat (size (tasks st)) ≤ int_max.

(** * Properties *)

(** ** Machine integers *)

Lemma int_wrap_range z : int_range (int_wrap z).
Proof.
  unfold int_range, int_wrap, int_min, int_max.
  pose proof (Z.mod_pos_bound (z + 2 ^ 63) (2 ^ 64)). lia.
Qed.

Lemma int_wrap_id z : int_range z → int_wrap z = z.
Proof.
  unfold int_range, int_wrap, int_min, int_max. intros Hz.
  rewrite Z.mod_small; lia.
Qed.

Lemma int_wrap_add_l a b : int_wrap (int_wrap a + b) = int_wrap (a + b).
Proof.
  unfold int_wrap. f_equal.
  replace ((a + 2 ^ 63) `mod` 2 ^ 64 - 2 ^ 63 + b + 2 ^ 63)
    with ((a + 2 ^ 63) `mod` 2 ^ 64 + b) by lia.
  rewrite Zplus_mod_idemp_l. f_equal. lia.
Qed.

Lemma int_wrap_inj a b :
  int_wrap a = int_wrap b → 0 ≤ b - a < 2 ^ 64 → a = b.
Proof.
  unfold int_wrap. intros Heq Hd.
  assert (Hm : (a + 2 ^ 63) `mod` 2 ^ 64 = (b + 2 ^ 63) `mod` 2 ^ 64) by lia.
  pose proof (Z.div_mod (a + 2 ^ 63) (2 ^ 64) ltac:(lia)) as Ha.
  pose proof (Z.div_mod (b + 2 ^ 63) (2 ^ 64) ltac:(lia)) as Hb.
  rewrite Hm in Ha.
  assert ((b + 2 ^ 63) `div` 2 ^ 64 = (a + 2 ^ 63) `div` 2 ^ 64) by nia.
  lia.
Qed.

(** ** Runs: the counter and the ids handed out *)

Lemma exec_counter e st :
  taskIDCounter (exec e st).1 =
  if is_create e then int_wrap (taskIDCounter st + 1) else taskIDCounter st.
Proof.
  destruct e as [[order|[msg|t] now|[msg|t]|taskID]|task|id]; simpl; try done.
  - by destruct (tasks st !! ID t).
  - unfold deleteTaskHandler. case_decide; [done|].
    destruct (Sscanf_d taskID) as [id [err|]]; [done|].
    by destruct (tasks st !! id).
Qed.

Lemma exec_created_ids e st :
  created_ids (exec e st).2 =
  if is_create e then [taskIDCounter st] else [].
Proof.
  destruct e as [[order|[msg|t] now|[msg|t]|taskID]|task|id]; simpl; try done.
  - by destruct (tasks st !! ID t).
  - unfold deleteTaskHandler. case_decide; [done|].
    destruct (Sscanf_d taskID) as [id [err|]]; [done|].
    by destruct (tasks st !! id).
Qed.

Lemma run_cons e evs st :
  run (e :: evs) st =
  ((run evs (exec e st).1).1, (exec e st).2 ++ (run evs (exec e st).1).2).
Proof.
  simpl. destruct (exec e st) as [st1 rs1]. simpl.
  by destruct (run evs st1).
Qed.

Lemma created_ids_app rs1 rs2 :
  created_ids (rs1 ++ rs2) = created_ids rs1 ++ created_ids rs2.
Proof. apply omap_app. Qed.

Lemma creates_cons e evs :
  creates (e :: evs) = ((if is_create e then 1 else 0) + creates evs)%nat.
Proof.
  unfold creates. rewrite filter_cons. by destruct (is_create e).
Qed.

Lemma ids_from_S c n :
  int_range c → ids_from c (S n) = c :: ids_from (int_wrap (c + 1)) n.
Proof.
  intros Hc. unfold ids_from. simpl. f_equal.
  - rewrite Z.add_0_r. by apply int_wrap_id.
  - rewrite <- fmap_S_seq, <- list_fmap_compose. apply list_fmap_ext.
    intros _ j _. simpl. rewrite int_wrap_add_l. f_equal. lia.
Qed.

Lemma length_ids_from c n : length (ids_from c n) = n.
Proof. unfold ids_from. by rewrite length_fmap, length_seq. Qed.

Lemma ids_from_lookup c n i :
  (i < n)%nat → ids_from c n !! i = Some (int_wrap (c + Z.of_nat i)).
Proof.
  intros Hi. unfold ids_from. rewrite list_lookup_fmap, lookup_seq_lt by done.
  done.
Qed.

(** The closed form of a run: whatever else happens in between, the
    creates hand out the counter's successive values, and only they move
    the counter. *)
Lemma run_ids evs st :
  int_range (taskIDCounter st) →
  created_ids (run evs st).2 = ids_from (taskIDCounter st) (creates evs) ∧
  taskIDCounter (run evs st).1 =
    int_wrap (taskIDCounter st + Z.of_nat (creates evs)).
Proof.
  revert st. induction evs as [|e evs IH]; intros st Hc.
  - simpl. split; [done|]. rewrite Z.add_0_r. by rewrite int_wrap_id.
  - rewrite run_cons, creates_cons. simpl.
    rewrite created_ids_app, exec_created_ids.
    pose proof (exec_counter e st) as Hcnt.
    destruct (is_create e).
    + destruct (IH (exec e st).1) as [Hids Hfin].
      { rewrite Hcnt. apply int_wrap_range. }
      rewrite Hids, Hfin, Hcnt. split.
      * simpl. by rewrite ids_from_S.
      * rewrite int_wrap_add_l. f_equal. lia.
    + destruct (IH (exec e st).1) as [Hids Hfin]; [by rewrite Hcnt|].
      rewrite Hids, Hfin, Hcnt. done.
Qed.

Lemma ids_from_no_wrap c n :
  int_range c → c + Z.of_nat n ≤ int_max + 1 →
  ids_from c n = (λ j : nat, c + Z.of_nat j) <$> seq 0 n.
Proof.
  intros Hc Hn. unfold ids_from. apply list_fmap_ext.
  intros i j Hj. apply lookup_seq in Hj as [-> Hlt].
  apply int_wrap_id. unfold int_range in *. lia.
Qed.

Lemma ids_from_NoDup c n :
  Z.of_nat n ≤ 2 ^ 64 → NoDup (ids_from c n).
Proof.
  intros Hn. unfold ids_from. apply NoDup_fmap_2_strong; [|apply NoDup_seq].
  intros i j Hi Hj Heq. apply elem_of_seq in Hi, Hj.
  destruct (decide (i ≤ j)%nat).
  - apply int_wrap_inj in Heq; lia.
  - symmetry in Heq. apply int_wrap_inj in Heq; lia.
Qed.


(** ** Ids below the wrap *)


(** ** The delete handler *)

Lemma Sscanf_d_fails (str : string) :
  ∃ e, Sscanf_d str = (0, Some e).
Proof. unfold Sscanf_d. destruct (SkipSpace str); eauto. Qed.

(** Every call ends in one of the two 400 responses and leaves the
    globals as they were: the lookup and the removal are never reached. *)
Lemma deleteTaskHandler_bad_request (taskID : string) (st : State) :
  deleteTaskHandler taskID st =
  (st, http_Error (if decide (taskID = ""%string)
                   then "ID is required" else "Invalid task ID")
                  StatusBadRequest).
Proof.
  unfold deleteTaskHandler. case_decide; [done|].
  by destruct (Sscanf_d_fails taskID) as [e ->].
Qed.

(** C2, the code at the failing inputs.  With a record stored under id 1,
    the delete request for id 1 is answered 400, the globals are
    unchanged, the record is still there and a list still returns it; a
    delete request for an id that is absent is answered 400 as well, not
    with the 404 of a missing task. *)
Theorem delete_present_leaves_record :
  tasks one_task_state !! 1 = Some (mkTask 1 "A" false 0) ∧
  deleteTaskHandler "1" one_task_state
    = (one_task_state, http_Error "Invalid task ID" StatusBadRequest) ∧
  tasks (deleteTaskHandler "1" one_task_state).1 !! 1
    = Some (mkTask 1 "A" false 0) ∧
  (getTasksHandler (map_to_list (tasks (deleteTaskHandler "1" one_task_state).1))
                   (deleteTaskHandler "1" one_task_state).1).2
    = respondWithJSON StatusOK (DTasks (Some [mkTask 1 "A" false 0])) ∧
  tasks one_task_state !! 2 = None ∧
  deleteTaskHandler "2" one_task_state
    = (one_task_state, http_Error "Invalid task ID" StatusBadRequest).
Proof. by vm_compute. Qed.

(** C3, the code on every input.  The delete endpoint answers 400 to
    every request, whatever the [id] parameter and whatever the registry
    holds; it never answers 204 or 404.  In particular the request for
    id 7 on the empty registry, a valid integer naming no task, gets 400. *)
Theorem delete_status_always_400 (taskID : string) (st : State) :
  status (deleteTaskHandler taskID st).2 = StatusBadRequest ∧
  (deleteTaskHandler taskID st).1 = st ∧
  status (deleteTaskHandler "7" initial_state).2 ≠ StatusNotFound.
Proof.
  rewrite deleteTaskHandler_bad_request. split_and!; [done|done|].
  by vm_compute.
Qed.

(** The scenario of creates and an update: ids 1 and 2 are handed out,
    and the update of id 1 rewrites title and flag only. *)
Example scenario_create_update :
  let evs := [Http (CreateTask (Decoded (mkTask 0 "A" false 0)) 100);
              Http (CreateTask (Decoded (mkTask 0 "B" false 0)) 101);
              Http (UpdateTask (Decoded (mkTask 1 "A2" true 0)))] in
  created_ids (run evs initial_state).2 = [1; 2] ∧
  status <$> (run evs initial_state).2
    = [StatusCreated; StatusCreated; StatusOK] ∧
  tasks (run evs initial_state).1 !! 1 = Some (mkTask 1 "A2" true 100) ∧
  tasks (run evs initial_state).1 !! 2 = Some (mkTask 2 "B" false 101) ∧
  taskIDCounter (run evs initial_state).1 = 3.
Proof. by vm_compute. Qed.

(** ** C4 and C5: update *)

(** C4.  An update whose id is not in the registry is answered 404
    "Task not found" and returns the globals as they were, map and
    counter alike. *)
Theorem update_absent_not_found (updatedTask : Task) (st : State) :
  tasks st !! ID updatedTask = None →
  updateTaskHandler (Decoded updatedTask) st
  = (st, http_Error "Task not found" StatusNotFound).
Proof. intros Hnone. unfold updateTaskHandler. by rewrite Hnone. Qed.

Lemma update_absent_not_found_witness :
  updateTaskHandler (Decoded (mkTask 5 "A2" true 0)) one_task_state
  = (one_task_state, http_Error "Task not found" StatusNotFound).
Proof.
  apply (update_absent_not_found (mkTask 5 "A2" true 0) one_task_state).
  by vm_compute.
Defined.

(** C5.  An update whose id is in the registry is answered with status
    200 and, as body, the JSON of the record now stored under that id:
    an object with the id and creation time of the record it replaces
    and the title and the completed flag of the request.  Every other id
    maps to what it mapped to before, and the counter is unchanged. *)
Theorem update_present_overwrites (updatedTask old : Task) (st : State) :
  tasks st !! ID updatedTask = Some old →
  ∃ task,
    status (updateTaskHandler (Decoded updatedTask) st).2 = 200 ∧
    body (updateTaskHandler (Decoded updatedTask) st).2 = JSON (DTask task) ∧
    response_json (updateTaskHandler (Decoded updatedTask) st).2
      = Some (JObject [("id"%string, JNumber (ID old));
                       ("title"%string, JString (Title updatedTask));
                       ("completed"%string, JBool (Completed updatedTask));
                       ("created_at"%string, JTime (CreatedAt old))]) ∧
    tasks (updateTaskHandler (Decoded updatedTask) st).1 !! ID updatedTask
      = Some task ∧
    Title task = Title updatedTask ∧
    Completed task = Completed updatedTask ∧
    ID task = ID old ∧
    CreatedAt task = CreatedAt old ∧
    (∀ id, id ≠ ID updatedTask →
       tasks (updateTaskHandler (Decoded updatedTask) st).1 !! id
       = tasks st !! id) ∧
    taskIDCounter (updateTaskHandler (Decoded updatedTask) st).1
      = taskIDCounter st.
Proof.
  intros Hold. unfold updateTaskHandler. rewrite Hold. simpl.
  eexists. split_and!; try reflexivity.
  - by rewrite lookup_insert_eq.
  - intros id Hne. by rewrite lookup_insert_ne.
Qed.

Lemma update_present_overwrites_witness :
  ∃ task,
    status (updateTaskHandler (Decoded (mkTask 1 "A2" true 99))
                              one_task_state).2 = 200 ∧
    body (updateTaskHandler (Decoded (mkTask 1 "A2" true 99))
                            one_task_state).2 = JSON (DTask task) ∧
    response_json (updateTaskHandler (Decoded (mkTask 1 "A2" true 99))
                                     one_task_state).2
      = Some (JObject [("id"%string, JNumber 1);
                       ("title"%string, JString "A2");
                       ("completed"%string, JBool true);
                       ("created_at"%string, JTime 0)]) ∧
    tasks (updateTaskHandler (Decoded (mkTask 1 "A2" true 99)) one_task_state).1
      !! 1 = Some task ∧
    Title task = "A2"%string ∧
    Completed task = true ∧
    ID task = 1 ∧
    CreatedAt task = 0 ∧
    (∀ id, id ≠ 1 →
       tasks (updateTaskHandler (Decoded (mkTask 1 "A2" true 99))
                                one_task_state).1 !! id
       = tasks one_task_state !! id) ∧
    taskIDCounter
      (updateTaskHandler (Decoded (mkTask 1 "A2" true 99)) one_task_state).1
      = taskIDCounter one_task_state.
Proof.
  apply (update_present_overwrites (mkTask 1 "A2" true 99)
           (mkTask 1 "A" false 0) one_task_state).
  by vm_compute.
Defined.

(** ** C6: create *)

(** C6.  A create whose body decodes is always answered with status 201
    and, as body, the JSON of the new record: an object with the
    counter's value as id and the current time as creation time,
    whatever id and creation time the body carried, and the title and
    flag of the body.  This record is the one stored under that id.  The
    counter is then one more than it was, by [++] on [int]: the successor
    below the last [int], the least [int] after the last.  Every other id
    maps to what it mapped to before. *)
Theorem create_assigns_counter (newTask : Task) (now : Time) (st : State) :
  ∃ task,
    status (createTaskHandler (Decoded newTask) now st).2 = 201 ∧
    body (createTaskHandler (Decoded newTask) now st).2 = JSON (DTask task) ∧
    response_json (createTaskHandler (Decoded newTask) now st).2
      = Some (JObject [("id"%string, JNumber (taskIDCounter st));
                       ("title"%string, JString (Title newTask));
                       ("completed"%string, JBool (Completed newTask));
                       ("created_at"%string, JTime now)]) ∧
    ID task = taskIDCounter st ∧
    CreatedAt task = now ∧
    Title task = Title newTask ∧
    Completed task = Completed newTask ∧
    tasks (createTaskHandler (Decoded newTask) now st).1 !! taskIDCounter st
      = Some task ∧
    taskIDCounter (createTaskHandler (Decoded newTask) now st).1
      = int_wrap (taskIDCounter st + 1) ∧
    (- 2 ^ 63 ≤ taskIDCounter st < 2 ^ 63 - 1 →
     taskIDCounter (createTaskHandler (Decoded newTask) now st).1
       = taskIDCounter st + 1) ∧
    (taskIDCounter st = 2 ^ 63 - 1 →
     taskIDCounter (createTaskHandler (Decoded newTask) now st).1
       = - 2 ^ 63) ∧
    (∀ id, id ≠ taskIDCounter st →
       tasks (createTaskHandler (Decoded newTask) now st).1 !! id
       = tasks st !! id).
Proof.
  simpl. eexists. split_and!; try reflexivity.
  - by rewrite lookup_insert_eq.
  - intros Hc. apply int_wrap_id. unfold int_range, int_min, int_max. lia.
  - intros ->. reflexivity.
  - intros id Hne. by rewrite lookup_insert_ne.
Qed.

Lemma create_assigns_counter_witness :
  ∃ task,
    status (createTaskHandler (Decoded (mkTask 7 "A" false 99)) 5
                              initial_state).2 = 201 ∧
    body (createTaskHandler (Decoded (mkTask 7 "A" false 99)) 5
                            initial_state).2 = JSON (DTask task) ∧
    response_json (createTaskHandler (Decoded (mkTask 7 "A" false 99)) 5
                                     initial_state).2
      = Some (JObject [("id"%string, JNumber 1);
                       ("title"%string, JString "A");
                       ("completed"%string, JBool false);
                       ("created_at"%string, JTime 5)]) ∧
    tasks (createTaskHandler (Decoded (mkTask 7 "A" false 99)) 5
                             initial_state).1 !! 1 = Some task ∧
    taskIDCounter (createTaskHandler (Decoded (mkTask 7 "A" false 99)) 5
                                     initial_state).1 = 2.
Proof.
  destruct (create_assigns_counter (mkTask 7 "A" false 99) 5 initial_state)
    as (task & Hst & Hbody & Hjson & _ & _ & _ & _ & Hstored & _ & Hsucc & _).
  exists task. split_and!; [done|done|done|done|].
  apply Hsucc. by vm_compute.
Defined.

(** Below the last [int] the step is the successor. *)
Lemma create_counter_succ (newTask : Task) (now : Time) (st : State) :
  int_range (taskIDCounter st) → taskIDCounter st < int_max →
  taskIDCounter (createTaskHandler (Decoded newTask) now st).1
  = taskIDCounter st + 1.
Proof.
  intros Hc Hlt. simpl. apply int_wrap_id. unfold int_range in *. lia.
Qed.

(** ** C10: the list of an empty registry *)

Lemma collect_snoc order kv :
  collect (order ++ [kv]) = append (collect order) kv.2.
Proof. unfold collect. by rewrite foldl_app. Qed.

Lemma collect_elems order : elems (collect order) = order.*2.
Proof.
  induction order as [|kv order IH] using rev_ind; [done|].
  rewrite collect_snoc, fmap_app. simpl. rewrite <- IH.
  by destruct (collect order).
Qed.




(** ** C7: the list after creates *)

Lemma exec_dom e st id :
  no_delete_no_pipeline e = true →
  (is_Some (tasks (exec e st).1 !! id)
   ↔ is_Some (tasks st !! id) ∨ id ∈ created_ids (exec e st).2) ∧
  (key_is_id st → key_is_id (exec e st).1).
Proof.
  destruct e as [[order|[msg|t] now|[msg|t]|taskID]|task|rid]; simpl;
    try done; intros _.
  - rewrite elem_of_nil. intuition (eauto; congruence).
  - rewrite elem_of_nil. intuition (eauto; congruence).
  - split.
    + rewrite list_elem_of_singleton, lookup_insert.
      case_decide; intuition (eauto; congruence).
    + intros Hk id' u. simpl. rewrite lookup_insert.
      case_decide; [by intros [= <-]|by apply Hk].
  - rewrite elem_of_nil. intuition (eauto; congruence).
  - destruct (tasks st !! ID t) as [old|] eqn:Hold; simpl.
    + split.
      * rewrite elem_of_nil, lookup_insert.
        case_decide; [subst; rewrite Hold|]; intuition (eauto; congruence).
      * intros Hk id' u. simpl. rewrite lookup_insert.
        case_decide as Heq; [|by apply Hk].
        intros [= <-]. simpl. rewrite <- Heq. by apply Hk.
    + rewrite elem_of_nil. intuition (eauto; congruence).
Qed.

Lemma run_dom evs st id :
  Forall (λ e, no_delete_no_pipeline e = true) evs →
  (is_Some (tasks (run evs st).1 !! id)
   ↔ is_Some (tasks st !! id) ∨ id ∈ created_ids (run evs st).2) ∧
  (key_is_id st → key_is_id (run evs st).1).
Proof.
  intros Hall. revert st. induction Hall as [|e evs He _ IH]; intros st.
  - simpl. rewrite elem_of_nil. intuition (eauto; congruence).
  - rewrite run_cons. simpl. rewrite created_ids_app, elem_of_app.
    destruct (exec_dom e st id He) as [Hd Hk].
    destruct (IH (exec e st).1) as [Hd' Hk'].
    split; [|by auto]. rewrite Hd', Hd. intuition (eauto; congruence).
Qed.

Lemma key_is_id_fst (st : State) (order : list (Z * Task)) :
  key_is_id st → range_order st order → ID <$> order.*2 = order.*1.
Proof.
  intros Hk Hperm. rewrite <- list_fmap_compose. apply list_fmap_ext.
  intros i [id t] Hi. simpl. apply Hk.
  apply elem_of_map_to_list. rewrite <- Hperm.
  apply list_elem_of_lookup. eauto.
Qed.

Lemma range_order_keys (st : State) (order : list (Z * Task)) :
  range_order st order →
  NoDup order.*1 ∧ ∀ id, id ∈ order.*1 ↔ is_Some (tasks st !! id).
Proof.
  intros Hperm. split.
  - rewrite Hperm. apply NoDup_fst_map_to_list.
  - intros id. rewrite Hperm, list_elem_of_fmap. split.
    + intros ([id' t] & -> & Hin). apply elem_of_map_to_list in Hin. eauto.
    + intros [t Ht]. exists (id, t). split; [done|].
      by apply elem_of_map_to_list.
Qed.

Lemma len_elems {A} (s : slice A) : len s = length (elems s).
Proof. by destruct s. Qed.

(** Take any run from the initial state made of list, create and update
    requests only, with [N] creates whose body decodes, [N] at most
    [2 ^ 64].  A list at its end, whatever the order [range] takes,
    returns exactly [N] records, and their ids are, up to order, the ids
    the creates returned, all distinct. *)
Lemma list_after_creates_below_wrap
    (evs : list event) (order : list (Z * Task)) :
  Forall (λ e, no_delete_no_pipeline e = true) evs →
  Z.of_nat (creates evs) ≤ 2 ^ 64 →
  range_order (run evs initial_state).1 order →
  (getTasksHandler order (run evs initial_state).1).2
    = respondWithJSON StatusOK (DTasks (collect order)) ∧
  length (created_ids (run evs initial_state).2) = creates evs ∧
  len (collect order) = creates evs ∧
  NoDup (created_ids (run evs initial_state).2) ∧
  ID <$> elems (collect order) ≡ₚ created_ids (run evs initial_state).2.
Proof.
  intros Hall Hn Hord.
  destruct (run_ids evs initial_state) as [Hids _]; [by compute|].
  assert (Hk : key_is_id (run evs initial_state).1).
  { apply (run_dom evs initial_state 0 Hall).
    intros id t. simpl. by rewrite lookup_empty. }
  destruct (range_order_keys _ _ Hord) as [Hnd Hin].
  assert (Hnd' : NoDup (created_ids (run evs initial_state).2)).
  { rewrite Hids. by apply ids_from_NoDup. }
  assert (Hperm :
    ID <$> elems (collect order) ≡ₚ created_ids (run evs initial_state).2).
  { rewrite collect_elems, (key_is_id_fst _ _ Hk Hord).
    apply NoDup_Permutation; [done|done|].
    intros id. rewrite Hin.
    destruct (run_dom evs initial_state id Hall) as [-> _].
    simpl. rewrite lookup_empty, is_Some_alt. tauto. }
  split_and!; [done| |  |done|done].
  - by rewrite Hids, length_ids_from.
  - rewrite len_elems, <- (length_fmap ID), Hperm, Hids.
    apply length_ids_from.
Qed.

(** ** What a run stores *)

Lemma elem_of_completion_ids_cons e evs id :
  id ∈ completion_ids (e :: evs)
  ↔ completion_id e = Some id ∨ id ∈ completion_ids evs.
Proof.
  unfold completion_ids. simpl. destruct (completion_id e) as [x|].
  - rewrite elem_of_cons. intuition congruence.
  - intuition congruence.
Qed.

Lemma exec_stored e st id :
  is_removal e = false →
  is_Some (tasks (exec e st).1 !! id)
  ↔ is_Some (tasks st !! id) ∨ id ∈ created_ids (exec e st).2
    ∨ completion_id e = Some id.
Proof.
  intros Hr. rewrite exec_created_ids.
  destruct e as [[order|[msg|t] now|[msg|t]|taskID]|task|rid]; simpl;
    try done; rewrite ?elem_of_nil.
  - intuition congruence.
  - intuition congruence.
  - rewrite list_elem_of_singleton, lookup_insert.
    case_decide; intuition (eauto; congruence).
  - intuition congruence.
  - destruct (tasks st !! ID t) as [old|] eqn:Hold; simpl.
    + rewrite lookup_insert.
      case_decide; [subst; rewrite Hold|]; intuition (eauto; congruence).
    + intuition congruence.
  - rewrite deleteTaskHandler_bad_request. simpl. intuition congruence.
  - rewrite lookup_insert.
    case_decide; [subst|]; intuition (eauto; congruence).
Qed.

Lemma run_stored evs st id :
  Forall (λ e, is_removal e = false) evs →
  is_Some (tasks (run evs st).1 !! id)
  ↔ is_Some (tasks st !! id) ∨ id ∈ created_ids (run evs st).2
    ∨ id ∈ completion_ids evs.
Proof.
  intros Hall. revert st. induction Hall as [|e evs He _ IH]; intros st.
  - simpl. unfold completion_ids. simpl. rewrite elem_of_nil. tauto.
  - rewrite run_cons, elem_of_completion_ids_cons. cbn [fst snd].
    rewrite created_ids_app, elem_of_app.
    rewrite IH, (exec_stored e st id He). tauto.
Qed.

(** ** C1 and C7: the runs the program can perform *)

(** No handler reaches line 120 and the consumer only writes, so along
    the runs of the program the map only grows: every id a create has
    returned is still stored at the end.  The first [k] ids handed out
    are pairwise distinct for [k] up to [2 ^ 64], so the map holds at
    least [k] records. *)
Lemma created_ids_stored_prefix (evs : list event) (k : nat) :
  Forall (λ e, is_removal e = false) evs →
  (k ≤ creates evs)%nat → Z.of_nat k ≤ 2 ^ 64 →
  (k ≤ size (tasks (run evs initial_state).1))%nat.
Proof.
  intros Hall Hk Hk64.
  destruct (run_ids evs initial_state) as [Hids _]; [by compute|].
  change (taskIDCounter initial_state) with 1 in Hids.
  destruct (range_order_keys (run evs initial_state).1
              (map_to_list (tasks (run evs initial_state).1)))
    as [Hnd Hin]; [by unfold range_order|].
  assert (Hsub : ids_from 1 k
                 ⊆+ (map_to_list (tasks (run evs initial_state).1)).*1).
  { apply NoDup_submseteq; [by apply ids_from_NoDup|].
    intros id Hid. apply Hin. apply run_stored; [done|]. right. left.
    rewrite Hids.
    apply list_elem_of_lookup in Hid as [i Hi].
    assert (Hlt : (i < k)%nat).
    { apply lookup_lt_Some in Hi. by rewrite length_ids_from in Hi. }
    rewrite ids_from_lookup in Hi by done.
    apply list_elem_of_lookup. exists i.
    rewrite ids_from_lookup by lia. done. }
  apply submseteq_length in Hsub.
  by rewrite length_ids_from, length_fmap, length_map_to_list in Hsub.
Qed.

(** So a map that fits has seen at most [int_max] creates: the counter
    has not wrapped. *)
Lemma creates_fit (evs : list event) :
  Forall (λ e, is_removal e = false) evs →
  map_fits (run evs initial_state).1 →
  Z.of_nat (creates evs) ≤ int_max.
Proof.
  unfold map_fits, int_max. intros Hall Hfit.
  destruct (decide (Z.of_nat (creates evs) ≤ 2 ^ 64)) as [Hle|Hgt].
  - pose proof (created_ids_stored_prefix evs (creates evs) Hall
                  ltac:(lia) Hle).
    lia.
  - destruct (Z_of_nat_complete (2 ^ 64)) as [k Hk]; [lia|].
    pose proof (created_ids_stored_prefix evs k Hall ltac:(lia) ltac:(lia)).
    lia.
Qed.



(** C7.  Take any run of the program from its initial state made of
    list, create and update requests only (no delete request, no
    pipeline write), with [N] creates whose body decodes, the map staying
    within what a Go map can hold.  A list at its end, whatever the order
    [range] takes, is answered 200 with exactly [N] records, and their
    ids are, up to order, the ids the [N] creates returned, all
    distinct. *)
Theorem list_after_creates (evs : list event) (order : list (Z * Task)) :
  Forall (λ e, no_delete_no_pipeline e = true) evs →
  map_fits (run evs initial_state).1 →
  range_order (run evs initial_state).1 order →
  status (getTasksHandler order (run evs initial_state).1).2 = 200 ∧
  body (getTasksHandler order (run evs initial_state).1).2
    = JSON (DTasks (collect order)) ∧
  length (created_ids (run evs initial_state).2) = creates evs ∧
  len (collect order) = creates evs ∧
  NoDup (created_ids (run evs initial_state).2) ∧
  ID <$> elems (collect order) ≡ₚ created_ids (run evs initial_state).2.
Proof.
  intros Hall Hfit Hord.
  assert (Hn : Z.of_nat (creates evs) ≤ int_max).
  { apply creates_fit; [|done].
    eapply Forall_impl; [exact Hall|].
    by intros [[]| |]. }
  destruct (list_after_creates_below_wrap evs order Hall) as (_ & Hrest);
    [unfold int_max in Hn; lia|done|].
  split_and!; [done|done|apply Hrest..].
Qed.

Lemma list_after_creates_witness :
  status
    (getTasksHandler
       (map_to_list (tasks (run [sample_create; sample_create] initial_state).1))
       (run [sample_create; sample_create] initial_state).1).2 = 200 ∧
  body
    (getTasksHandler
       (map_to_list (tasks (run [sample_create; sample_create] initial_state).1))
       (run [sample_create; sample_create] initial_state).1).2
    = JSON (DTasks (collect (map_to_list
        (tasks (run [sample_create; sample_create] initial_state).1)))) ∧
  length (created_ids (run [sample_create; sample_create] initial_state).2)
    = creates [sample_create; sample_create] ∧
  len (collect (map_to_list
         (tasks (run [sample_create; sample_create] initial_state).1)))
    = creates [sample_create; sample_create] ∧
  NoDup (created_ids (run [sample_create; sample_create] initial_state).2) ∧
  ID <$> elems (collect (map_to_list
           (tasks (run [sample_create; sample_create] initial_state).1)))
    ≡ₚ created_ids (run [sample_create; sample_create] initial_state).2.
Proof.
  apply (list_after_creates [sample_create; sample_create]).
  - repeat constructor.
  - by vm_compute.
  - unfold range_order. reflexivity.
Defined.

(** ** C8: the completion pipeline *)

Lemma processTask_fields (task : Task) :
  ID (processTask task) = ID task ∧
  Title (processTask task) = Title task ∧
  CreatedAt (processTask task) = CreatedAt task ∧
  Completed (processTask task) = true.
Proof. done. Qed.

Lemma step_messages a s s' :
  step a s = Some s' →
  messages s' ≡ₚ messages s ∧
  (written s ++ option_list (received s) = sent s →
   written s' ++ option_list (received s') = sent s').
Proof.
  unfold messages.
  destruct a as [|i| |r]; simpl.
  - destruct (unspawned s) as [|task rest]; [done|]. intros [= <-]. simpl.
    split; [|done]. rewrite fmap_app. simpl.
    by rewrite <- !app_assoc.
  - destruct (received s); [done|].
    destruct (senders s !! i) as [task|] eqn:Hi; [|done].
    intros [= <-]. simpl. split.
    + assert (Hperm : processTask <$> senders s
                      ≡ₚ processTask task :: (processTask <$> delete i (senders s))).
      { rewrite <- fmap_cons. by apply fmap_Permutation, delete_Permutation. }
      rewrite Hperm, <- !app_assoc. simpl.
      by rewrite <- Permutation_middle.
    + rewrite !app_nil_r. by intros ->.
  - destruct (received s) as [task|]; [|done]. intros [= <-]. simpl.
    split; [done|]. by rewrite app_nil_r.
  - intros [= <-]. done.
Qed.

Lemma step_pending a s s' :
  step a s = Some s' →
  ((if is_pipeline a then 1 else 0) + pending s' = pending s)%nat.
Proof.
  unfold pending.
  destruct a as [|i| |r]; simpl.
  - destruct (unspawned s) as [|task rest]; [done|]. intros [= <-]. simpl.
    rewrite length_app. simpl. lia.
  - destruct (received s); [done|].
    destruct (senders s !! i) as [task|] eqn:Hi; [|done].
    intros [= <-]. simpl. rewrite length_delete by eauto.
    apply lookup_lt_Some in Hi. lia.
  - destruct (received s) as [task|]; [|done]. intros [= <-]. simpl. lia.
  - intros [= <-]. done.
Qed.

Lemma pipeline_steps_cons a acts :
  pipeline_steps (a :: acts)
  = ((if is_pipeline a then 1 else 0) + pipeline_steps acts)%nat.
Proof.
  unfold pipeline_steps. rewrite filter_cons. by destruct (is_pipeline a).
Qed.

Lemma schedule_invariant acts s s' :
  schedule acts s = Some s' →
  messages s' ≡ₚ messages s ∧
  (written s ++ option_list (received s) = sent s →
   written s' ++ option_list (received s') = sent s') ∧
  (pipeline_steps acts + pending s' = pending s)%nat.
Proof.
  revert s. induction acts as [|a acts IH]; intros s; simpl.
  - intros [= <-]. done.
  - destruct (step a s) as [s1|] eqn:Hstep; [|done]. intros Hrest.
    destruct (IH s1 Hrest) as (Hm & Hw & Hp).
    destruct (step_messages a s s1 Hstep) as [Hm1 Hw1].
    pose proof (step_pending a s s1 Hstep) as Hp1.
    split_and!.
    + by rewrite Hm, Hm1.
    + auto.
    + rewrite pipeline_steps_cons. lia.
Qed.

(** While something is pending, the pipeline can move. *)
Lemma pipeline_progress s :
  pending s ≠ 0%nat → ∃ a, is_pipeline a = true ∧ is_Some (step a s).
Proof.
  unfold pending. intros Hp.
  destruct (received s) as [m|] eqn:Hr.
  - exists Write. simpl. rewrite Hr. eauto.
  - destruct (senders s) as [|task rest] eqn:Hs.
    + destruct (unspawned s) as [|task rest] eqn:Hu; [simpl in Hp; lia|].
      exists Spawn. simpl. rewrite Hu. eauto.
    + exists (Send 0). simpl. rewrite Hr, Hs. simpl. eauto.
Qed.

Lemma pending_0 s :
  pending s = 0%nat → unspawned s = [] ∧ senders s = [] ∧ received s = None.
Proof.
  unfold pending.
  destruct (unspawned s), (senders s), (received s); simpl; try lia. done.
Qed.

(** C8.  Start the pipeline on any batch and let the program run under
    any schedule of pipeline steps and requests.  A message is the
    sender's task with [completed] set and the other three fields as they
    were.  At every point the messages sent and those still to come are,
    up to order, one per task of the batch, and the consumer has written
    the messages sent, in order, except the one it may hold.  The
    pipeline takes [3 * length batch] steps in all, it can always take
    one while any is left, and when none is left exactly one message per
    task has been sent and written.  The consumer's write stores the
    message under its id, whatever was there, and leaves the counter. *)
Theorem pipeline_one_message_per_task
    (batch : list Task) (st : State) (acts : list action) (s : System) :
  schedule acts (boot batch st) = Some s →
  (∀ task,
     ID (processTask task) = ID task ∧ Title (processTask task) = Title task ∧
     CreatedAt (processTask task) = CreatedAt task ∧
     Completed (processTask task) = true) ∧
  sent s ++ (processTask <$> senders s) ++ (processTask <$> unspawned s)
    ≡ₚ processTask <$> batch ∧
  written s ++ option_list (received s) = sent s ∧
  (pipeline_steps acts + pending s = 3 * length batch)%nat ∧
  (pending s ≠ 0%nat → ∃ a, is_pipeline a = true ∧ is_Some (step a s)) ∧
  (pending s = 0%nat →
     sent s ≡ₚ processTask <$> batch ∧ written s = sent s) ∧
  (∀ m, received s = Some m →
     ∃ s', step Write s = Some s' ∧
           tasks (globals s') = <[ID m := m]> (tasks (globals s)) ∧
           taskIDCounter (globals s') = taskIDCounter (globals s)).
Proof.
  intros Hrun.
  destruct (schedule_invariant _ _ _ Hrun) as (Hm & Hw & Hp).
  unfold messages in Hm. simpl in Hm.
  specialize (Hw eq_refl).
  assert (Hpb : pending (boot batch st) = (3 * length batch)%nat).
  { unfold pending. simpl. lia. }
  split_and!.
  - apply processTask_fields.
  - done.
  - done.
  - lia.
  - apply pipeline_progress.
  - intros H0. destruct (pending_0 s H0) as (Hu & Hs & Hr).
    rewrite Hu, Hs in Hm. rewrite Hr in Hw. simpl in Hm, Hw.
    rewrite !app_nil_r in *. done.
  - intros m Hr. simpl. rewrite Hr. eauto.
Qed.

Lemma pipeline_one_message_per_task_witness :
  ∃ s,
    schedule [Spawn; Spawn; Send 1; Write; Spawn; Send 0;
              Serve (CreateTask (Decoded sample_task) 20); Write; Send 0; Write]
             (boot (startup_tasks 10 11 12) initial_state) = Some s ∧
    sent s ≡ₚ processTask <$> startup_tasks 10 11 12 ∧
    written s = sent s.
Proof.
  destruct (schedule _ _) as [s|] eqn:Hs.
  - exists s. split; [reflexivity|].
    refine (match pipeline_one_message_per_task _ _ _ _ Hs with
            | conj _ (conj _ (conj _ (conj _ (conj _ (conj H _))))) => H _
            end).
    vm_compute in Hs. injection Hs as <-. reflexivity.
  - vm_compute in Hs. discriminate.
Defined.

(** ** C9: the startup batch and the first creates *)

Lemma run_create_then_completion (newTask p : Task) (now : Time) (st : State) :
  ID p = taskIDCounter st →
  tasks (run [Http (CreateTask (Decoded newTask) now); Completion p] st).1
    !! taskIDCounter st = Some p.
Proof. intros Hid. simpl. rewrite Hid. apply lookup_insert_eq. Qed.

Lemma run_completion_then_create (newTask p : Task) (now : Time) (st : State) :
  tasks (run [Completion p; Http (CreateTask (Decoded newTask) now)] st).1
    !! taskIDCounter st
  = Some (mkTask (taskIDCounter st) (Title newTask) (Completed newTask) now).
Proof. simpl. apply lookup_insert_eq. Qed.

(** C9.  The batch of [main] carries the ids 1, 2 and 3 and the counter
    starts at 1, so in every run from the initial state the first three
    creates return the ids of the three batch tasks, in order, whatever
    happens in between.  For such an id, met by a create when the counter
    has that value: if the create comes first and the consumer's write of
    the batch task's message second, the map holds the message; if the
    write comes first and the create second, the map holds the created
    record.  In both orders the create is answered 201 and nothing
    reports the overwrite. *)
Theorem startup_ids_collide_with_creates
    (evs : list event) (t1 t2 t3 : Time) (i : nat) (id : Z) (p : Task) :
  created_ids (run evs initial_state).2 !! i = Some id →
  startup_tasks t1 t2 t3 !! i = Some p →
  taskIDCounter initial_state = 1 ∧
  ID <$> startup_tasks t1 t2 t3 = [1; 2; 3] ∧
  id = ID p ∧
  ID (processTask p) = id ∧
  ∀ (st : State) (newTask : Task) (now : Time),
    taskIDCounter st = id →
    tasks (run [Http (CreateTask (Decoded newTask) now);
                Completion (processTask p)] st).1 !! id
      = Some (processTask p) ∧
    tasks (run [Completion (processTask p);
                Http (CreateTask (Decoded newTask) now)] st).1 !! id
      = Some (mkTask id (Title newTask) (Completed newTask) now) ∧
    status <$> (run [Http (CreateTask (Decoded newTask) now);
                     Completion (processTask p)] st).2 = [StatusCreated] ∧
    status <$> (run [Completion (processTask p);
                     Http (CreateTask (Decoded newTask) now)] st).2
      = [StatusCreated].
Proof.
  intros Hid Hp.
  destruct (run_ids evs initial_state) as [Hids _]; [by compute|].
  rewrite Hids in Hid. change (taskIDCounter initial_state) with 1 in Hid.
  assert (Hi : (i < creates evs)%nat).
  { apply lookup_lt_Some in Hid. by rewrite length_ids_from in Hid. }
  rewrite ids_from_lookup in Hid by done.
  assert (Heq : id = ID p).
  { destruct i as [|[|[|i]]]; simpl in Hp; [| | |done];
      injection Hp as <-; injection Hid as <-; reflexivity. }
  split_and!; [done|done|done|by rewrite Heq|].
  intros st newTask now Hc. rewrite <- Hc. split_and!.
  - apply run_create_then_completion. simpl. congruence.
  - apply run_completion_then_create.
  - done.
  - done.
Qed.

Lemma startup_ids_collide_with_creates_witness :
  taskIDCounter initial_state = 1 ∧
  ID <$> startup_tasks 10 11 12 = [1; 2; 3] ∧
  2 = ID (mkTask 2 "Task 2" false 11) ∧
  ID (processTask (mkTask 2 "Task 2" false 11)) = 2 ∧
  ∀ (st : State) (newTask : Task) (now : Time),
    taskIDCounter st = 2 →
    tasks (run [Http (CreateTask (Decoded newTask) now);
                Completion (processTask (mkTask 2 "Task 2" false 11))] st).1
      !! 2 = Some (processTask (mkTask 2 "Task 2" false 11)) ∧
    tasks (run [Completion (processTask (mkTask 2 "Task 2" false 11));
                Http (CreateTask (Decoded newTask) now)] st).1 !! 2
      = Some (mkTask 2 (Title newTask) (Completed newTask) now) ∧
    status <$> (run [Http (CreateTask (Decoded newTask) now);
                     Completion (processTask (mkTask 2 "Task 2" false 11))]
                    st).2 = [StatusCreated] ∧
    status <$> (run [Completion (processTask (mkTask 2 "Task 2" false 11));
                     Http (CreateTask (Decoded newTask) now)] st).2
      = [StatusCreated].
Proof.
  apply (startup_ids_collide_with_creates
           [sample_create; Http (DeleteTask "1"); sample_create]
           10 11 12 1%nat 2 (mkTask 2 "Task 2" false 11)).
  - reflexivity.
  - reflexivity.
Defined.

(** * Further properties of the handlers and the pipeline *)

(** ** Ids and counter from the start of the program *)

Lemma run_ids_initial (evs : list event) :
  Z.of_nat (creates evs) < 2 ^ 63 - 1 →
  created_ids (run evs initial_state).2 = seqZ 1 (Z.of_nat (creates evs)) ∧
  taskIDCounter (run evs initial_state).1 = 1 + Z.of_nat (creates evs).
Proof.
  intros Hn.
  destruct (run_ids evs initial_state) as [Hids Hcnt]; [by compute|].
  change (taskIDCounter initial_state) with 1 in *. split.
  - rewrite Hids, ids_from_no_wrap.
    + unfold seqZ. rewrite Nat2Z.id. apply list_fmap_ext.
      intros _ j _. lia.
    + by compute.
    + unfold int_max. lia.
  - rewrite Hcnt. apply int_wrap_id.
    unfold int_range, int_min, int_max. lia.
Qed.

(** X1.  From the initial state, in a run with [N] creates whose body
    decodes, [N] below [2 ^ 63 - 1], the ids returned are 1, 2, ..., [N]
    in this order and the counter ends at [N + 1], whatever failed
    creates, updates, deletes, lists, pipeline writes and removals come
    in between. *)
Theorem created_ids_one_to_n (evs : list event) :
  Z.of_nat (creates evs) < 2 ^ 63 - 1 →
  created_ids (run evs initial_state).2 = seqZ 1 (Z.of_nat (creates evs)) ∧
  taskIDCounter (run evs initial_state).1 = 1 + Z.of_nat (creates evs).
Proof. apply run_ids_initial. Qed.

Lemma created_ids_one_to_n_witness :
  created_ids
    (run [sample_create; Http (CreateTask (DecodeError "EOF") 0);
          Http (DeleteTask "1"); sample_create; Completion sample_task;
          sample_create] initial_state).2
    = seqZ 1 3 ∧
  taskIDCounter
    (run [sample_create; Http (CreateTask (DecodeError "EOF") 0);
          Http (DeleteTask "1"); sample_create; Completion sample_task;
          sample_create] initial_state).1
    = 1 + 3.
Proof.
  apply (created_ids_one_to_n
           [sample_create; Http (CreateTask (DecodeError "EOF") 0);
            Http (DeleteTask "1"); sample_create; Completion sample_task;
            sample_create]).
  by vm_compute.
Defined.

(** ** Error answers *)

(** X2.  Whatever the route, a request answered with a status of 400 or
    more leaves the globals exactly as they were, and its body is a plain
    text message. *)
Theorem error_response_leaves_state (r : request) (st : State) :
  400 ≤ status (serve r st).2 →
  (serve r st).1 = st ∧ ∃ msg, body (serve r st).2 = Text msg.
Proof.
  destruct r as [order|[msg|t] now|[msg|t]|taskID]; simpl.
  - unfold StatusOK. lia.
  - eauto.
  - unfold StatusCreated. lia.
  - eauto.
  - destruct (tasks st !! ID t); simpl; [unfold StatusOK; lia|eauto].
  - rewrite deleteTaskHandler_bad_request. simpl. eauto.
Qed.

Lemma error_response_leaves_state_witness :
  (serve (UpdateTask (Decoded (mkTask 5 "A2" true 0))) one_task_state).1
    = one_task_state ∧
  ∃ msg,
    body (serve (UpdateTask (Decoded (mkTask 5 "A2" true 0)))
                one_task_state).2 = Text msg.
Proof.
  apply (error_response_leaves_state
           (UpdateTask (Decoded (mkTask 5 "A2" true 0))) one_task_state).
  by vm_compute.
Defined.

(** X3.  The delete handler tells a missing [id] parameter from a
    present one and nothing else: an empty parameter is answered 400
    "ID is required", every other one 400 "Invalid task ID", the same
    whatever the parameter's text and whatever the registry holds, and
    the globals stay as they were. *)
Theorem delete_response_by_parameter (taskID : string) (st : State) :
  deleteTaskHandler taskID st
  = (st, http_Error (if decide (taskID = ""%string)
                     then "ID is required" else "Invalid task ID")
                    StatusBadRequest).
Proof. apply deleteTaskHandler_bad_request. Qed.

(** ** The list *)



(** ** Update after create, and update twice *)

(** X5.  An update that names the id a create has just returned is
    answered with status 200 and, as body, the JSON of the record then
    stored: it has that id, the title and flag of the update and the
    creation time of the create.  The counter stays where the create
    left it. *)
Theorem create_then_update (newTask u : Task) (now : Time) (st : State) :
  ID u = taskIDCounter st →
  status (updateTaskHandler (Decoded u)
            (createTaskHandler (Decoded newTask) now st).1).2 = 200 ∧
  body (updateTaskHandler (Decoded u)
          (createTaskHandler (Decoded newTask) now st).1).2
    = JSON (DTask (mkTask (taskIDCounter st) (Title u) (Completed u) now)) ∧
  response_json (updateTaskHandler (Decoded u)
                   (createTaskHandler (Decoded newTask) now st).1).2
    = Some (JObject [("id"%string, JNumber (taskIDCounter st));
                     ("title"%string, JString (Title u));
                     ("completed"%string, JBool (Completed u));
                     ("created_at"%string, JTime now)]) ∧
  tasks (updateTaskHandler (Decoded u)
           (createTaskHandler (Decoded newTask) now st).1).1
    !! taskIDCounter st
    = Some (mkTask (taskIDCounter st) (Title u) (Completed u) now) ∧
  taskIDCounter (updateTaskHandler (Decoded u)
                   (createTaskHandler (Decoded newTask) now st).1).1
    = int_wrap (taskIDCounter st + 1) ∧
  taskIDCounter (updateTaskHandler (Decoded u)
                   (createTaskHandler (Decoded newTask) now st).1).1
    = taskIDCounter (createTaskHandler (Decoded newTask) now st).1.
Proof.
  intros Hid. simpl. rewrite Hid, lookup_insert_eq. simpl.
  split_and!; [done|done|done| |done|done]. apply lookup_insert_eq.
Qed.

Lemma create_then_update_witness :
  status (updateTaskHandler (Decoded (mkTask 1 "A2" true 7))
            (createTaskHandler (Decoded sample_task) 5 initial_state).1).2
    = 200 ∧
  body (updateTaskHandler (Decoded (mkTask 1 "A2" true 7))
          (createTaskHandler (Decoded sample_task) 5 initial_state).1).2
    = JSON (DTask (mkTask 1 "A2" true 5)) ∧
  response_json
    (updateTaskHandler (Decoded (mkTask 1 "A2" true 7))
       (createTaskHandler (Decoded sample_task) 5 initial_state).1).2
    = Some (JObject [("id"%string, JNumber 1);
                     ("title"%string, JString "A2");
                     ("completed"%string, JBool true);
                     ("created_at"%string, JTime 5)]) ∧
  tasks (updateTaskHandler (Decoded (mkTask 1 "A2" true 7))
           (createTaskHandler (Decoded sample_task) 5 initial_state).1).1
    !! 1 = Some (mkTask 1 "A2" true 5) ∧
  taskIDCounter (updateTaskHandler (Decoded (mkTask 1 "A2" true 7))
                   (createTaskHandler (Decoded sample_task) 5
                                      initial_state).1).1
    = int_wrap (1 + 1) ∧
  taskIDCounter (updateTaskHandler (Decoded (mkTask 1 "A2" true 7))
                   (createTaskHandler (Decoded sample_task) 5
                                      initial_state).1).1
    = taskIDCounter (createTaskHandler (Decoded sample_task) 5
                                       initial_state).1.
Proof.
  apply (create_then_update sample_task (mkTask 1 "A2" true 7) 5
           initial_state).
  reflexivity.
Defined.

(** X6.  Serving the same update a second time changes nothing more: the
    globals and the answer are those of the first time, whether the
    update succeeds, names an unknown id or does not decode. *)
Theorem update_twice_same (req : decoded) (st : State) :
  updateTaskHandler req (updateTaskHandler req st).1
  = updateTaskHandler req st.
Proof.
  destruct req as [msg|u]; simpl; [done|].
  destruct (tasks st !! ID u) as [old|] eqn:Hold; simpl.
  - rewrite lookup_insert_eq. simpl. by rewrite insert_insert_eq.
  - by rewrite Hold.
Qed.

(** ** What a run keeps *)

Lemma exec_key_is_id e st : key_is_id st → key_is_id (exec e st).1.
Proof.
  intros Hk.
  destruct e as [[order|[msg|t] now|[msg|t]|taskID]|task|rid]; simpl;
    try done.
  - intros id u. simpl. rewrite lookup_insert.
    case_decide; [by intros [= <-]|by apply Hk].
  - destruct (tasks st !! ID t) as [old|] eqn:Hold; simpl; [|done].
    intros id u. simpl. rewrite lookup_insert.
    case_decide as Heq; [|by apply Hk].
    intros [= <-]. simpl. rewrite <- Heq. by apply Hk.
  - by rewrite deleteTaskHandler_bad_request.
  - intros id u. simpl. rewrite lookup_insert.
    case_decide as Heq; [by intros [= <-]|by apply Hk].
  - intros id u. simpl. rewrite lookup_delete.
    case_decide; [done|by apply Hk].
Qed.

Lemma completion_ids_http evs :
  Forall (λ e, is_http e = true) evs → completion_ids evs = [].
Proof.
  induction 1 as [|e evs He _ IH]; [done|].
  destruct e; [|done|done]. exact IH.
Qed.

(** X7.  In a run without removals a record is stored at the end under
    exactly the ids that were stored at the start, that a create
    returned, or that the consumer wrote.  In particular no request, the
    delete request included, ever takes an id out of the registry. *)
Theorem stored_ids_after_run (evs : list event) (st : State) (id : Z) :
  Forall (λ e, is_removal e = false) evs →
  is_Some (tasks (run evs st).1 !! id)
  ↔ is_Some (tasks st !! id) ∨ id ∈ created_ids (run evs st).2
    ∨ id ∈ completion_ids evs.
Proof. apply run_stored. Qed.

Lemma stored_ids_after_run_witness :
  is_Some (tasks (run [sample_create; Http (DeleteTask "1");
                       Completion (mkTask 3 "Task 3" true 0)]
                      initial_state).1 !! 1)
  ↔ is_Some (tasks initial_state !! 1)
    ∨ 1 ∈ created_ids (run [sample_create; Http (DeleteTask "1");
                            Completion (mkTask 3 "Task 3" true 0)]
                           initial_state).2
    ∨ 1 ∈ completion_ids [sample_create; Http (DeleteTask "1");
                          Completion (mkTask 3 "Task 3" true 0)].
Proof.
  apply (stored_ids_after_run
           [sample_create; Http (DeleteTask "1");
            Completion (mkTask 3 "Task 3" true 0)] initial_state 1).
  repeat constructor.
Defined.

(** X8.  Every step keeps each record under its own id: if at the start
    of a run the [ID] field of every stored record is the key it is
    stored under, the same holds at its end, whatever requests, pipeline
    writes and removals the run is made of.  It holds at the start of the
    program, where the map is empty. *)
Theorem records_under_their_ids (evs : list event) (st : State) :
  key_is_id st → key_is_id (run evs st).1.
Proof.
  revert st. induction evs as [|e evs IH]; intros st Hk; [done|].
  rewrite run_cons. simpl. by apply IH, exec_key_is_id.
Qed.

Lemma records_under_their_ids_witness :
  key_is_id (run [sample_create; Completion (mkTask 3 "Task 3" true 0);
                  Http (UpdateTask (Decoded (mkTask 3 "T" false 9)));
                  Removal 1] initial_state).1.
Proof.
  apply (records_under_their_ids
           [sample_create; Completion (mkTask 3 "Task 3" true 0);
            Http (UpdateTask (Decoded (mkTask 3 "T" false 9)));
            Removal 1] initial_state).
  intros id t. simpl. by rewrite lookup_empty.
Defined.

(** X9.  In a run of requests only, from the initial state and with fewer
    than [2 ^ 63 - 1] creates, the ids stored are exactly those from 1 up
    to the counter, the counter excluded: the id the next create will
    take is free, so a create never replaces a record, and the map holds
    one record per create. *)
Theorem requests_only_next_id_free (evs : list event) :
  Forall (λ e, is_http e = true) evs →
  Z.of_nat (creates evs) < 2 ^ 63 - 1 →
  (∀ id, is_Some (tasks (run evs initial_state).1 !! id)
         ↔ 1 ≤ id < taskIDCounter (run evs initial_state).1) ∧
  tasks (run evs initial_state).1 !! taskIDCounter (run evs initial_state).1
    = None ∧
  size (tasks (run evs initial_state).1) = creates evs.
Proof.
  intros Hhttp Hn.
  destruct (run_ids_initial evs Hn) as [Hids Hcnt].
  assert (Hstored : ∀ id, is_Some (tasks (run evs initial_state).1 !! id)
                          ↔ 1 ≤ id < taskIDCounter (run evs initial_state).1).
  { intros id. rewrite run_stored.
    - rewrite Hids, Hcnt, (completion_ids_http evs Hhttp), elem_of_seqZ.
      simpl. rewrite lookup_empty, elem_of_nil, is_Some_alt. tauto.
    - eapply Forall_impl; [exact Hhttp|]. by intros [].  }
  split_and!; [done| |].
  - apply eq_None_not_Some. rewrite Hstored. lia.
  - destruct (range_order_keys (run evs initial_state).1
                (map_to_list (tasks (run evs initial_state).1)))
      as [Hnd Hin]; [by unfold range_order|].
    rewrite <- length_map_to_list, <- (length_fmap fst).
    rewrite (NoDup_Permutation _ (seqZ 1 (Z.of_nat (creates evs))) Hnd).
    + rewrite length_seqZ. lia.
    + apply NoDup_seqZ.
    + intros id. rewrite Hin, Hstored, Hcnt, elem_of_seqZ. done.
Qed.

Lemma requests_only_next_id_free_witness :
  (∀ id, is_Some (tasks (run [sample_create; Http (DeleteTask "1");
                             sample_create] initial_state).1 !! id)
         ↔ 1 ≤ id < taskIDCounter
                      (run [sample_create; Http (DeleteTask "1");
                            sample_create] initial_state).1) ∧
  tasks (run [sample_create; Http (DeleteTask "1"); sample_create]
             initial_state).1
    !! taskIDCounter (run [sample_create; Http (DeleteTask "1");
                           sample_create] initial_state).1 = None ∧
  size (tasks (run [sample_create; Http (DeleteTask "1"); sample_create]
                   initial_state).1)
    = creates [sample_create; Http (DeleteTask "1"); sample_create].
Proof.
  apply (requests_only_next_id_free
           [sample_create; Http (DeleteTask "1"); sample_create]).
  - repeat constructor.
  - by vm_compute.
Defined.

(** ** What an update can and cannot change *)

Lemma exec_identity e st id :
  keeps_records e = true →
  identity <$> tasks (exec e st).1 !! id = identity <$> tasks st !! id.
Proof.
  destruct e as [[order|[msg|t] now|[msg|t]|taskID]|task|rid]; simpl;
    try done; intros _.
  - destruct (tasks st !! ID t) as [old|] eqn:Hold; simpl; [|done].
    rewrite lookup_insert. case_decide; [subst; by rewrite Hold|done].
  - by rewrite deleteTaskHandler_bad_request.
Qed.

(** X10.  Requests other than a successful create never change which ids
    are stored nor, for a stored id, the record's id and creation time:
    after any run of lists, updates, deletes and failed creates, each id
    maps to a record with the same [ID] and [CreatedAt] as before, or to
    none as before, and the counter is where it was. *)
Theorem requests_keep_identity (evs : list event) (st : State) (id : Z) :
  Forall (λ e, keeps_records e = true) evs →
  identity <$> tasks (run evs st).1 !! id = identity <$> tasks st !! id ∧
  taskIDCounter (run evs st).1 = taskIDCounter st.
Proof.
  intros Hall. revert st. induction Hall as [|e evs He _ IH]; intros st.
  - done.
  - rewrite run_cons. simpl. destruct (IH (exec e st).1) as [-> ->].
    split; [by apply exec_identity|].
    rewrite exec_counter.
    by destruct e as [[order|[msg|t] now|[msg|t]|taskID]|task|rid].
Qed.

Lemma requests_keep_identity_witness :
  identity <$> tasks (run [Http (UpdateTask (Decoded (mkTask 1 "A2" true 9)));
                           Http (DeleteTask "1")] one_task_state).1 !! 1
    = identity <$> tasks one_task_state !! 1 ∧
  taskIDCounter (run [Http (UpdateTask (Decoded (mkTask 1 "A2" true 9)));
                      Http (DeleteTask "1")] one_task_state).1
    = taskIDCounter one_task_state.
Proof.
  apply (requests_keep_identity
           [Http (UpdateTask (Decoded (mkTask 1 "A2" true 9)));
            Http (DeleteTask "1")] one_task_state 1).
  repeat constructor.
Defined.



(** ** The pipeline on its own *)

Lemma schedule_app acts1 acts2 s :
  schedule (acts1 ++ acts2) s
  = match schedule acts1 s with
    | Some s1 => schedule acts2 s1
    | None => None
    end.
Proof.
  revert s. induction acts1 as [|a acts1 IH]; intros s; simpl; [done|].
  destruct (step a s); [apply IH|done].
Qed.

Lemma step_pipeline_globals a s s' :
  is_pipeline a = true → step a s = Some s' →
  ∃ ws, written s' = written s ++ ws ∧
        globals s' = apply_all ws (globals s).
Proof.
  destruct a as [|i| |r]; simpl; intros Hp; [| | |done].
  - destruct (unspawned s); [done|]. intros [= <-]. exists []. simpl.
    by rewrite app_nil_r.
  - destruct (received s); [done|]. destruct (senders s !! i); [|done].
    intros [= <-]. exists []. simpl. by rewrite app_nil_r.
  - destruct (received s) as [m|]; [|done]. intros [= <-]. by exists [m].
Qed.

Lemma schedule_pipeline_globals acts s s' :
  Forall (λ a, is_pipeline a = true) acts → schedule acts s = Some s' →
  ∃ ws, written s' = written s ++ ws ∧
        globals s' = apply_all ws (globals s).
Proof.
  intros Hall. revert s. induction Hall as [|a acts Ha _ IH]; intros s; simpl.
  - intros [= <-]. exists []. by rewrite app_nil_r.
  - destruct (step a s) as [s1|] eqn:Hstep; [|done]. intros Hrest.
    destruct (step_pipeline_globals a s s1 Ha Hstep) as (ws1 & Hw1 & Hg1).
    destruct (IH s1 Hrest) as (ws2 & Hw2 & Hg2).
    exists (ws1 ++ ws2). rewrite Hw2, Hw1, Hg2, Hg1. split.
    + by rewrite app_assoc.
    + unfold apply_all. by rewrite foldl_app.
Qed.

Lemma apply_all_tasks ms st :
  tasks (apply_all ms st)
    = list_to_map ((λ m, (ID m, m)) <$> reverse ms) ∪ tasks st ∧
  taskIDCounter (apply_all ms st) = taskIDCounter st.
Proof.
  induction ms as [|m ms [IHt IHc]] using rev_ind.
  - simpl. split; [|done]. by rewrite (left_id_L ∅ (∪)).
  - unfold apply_all in *. rewrite foldl_app. simpl. split; [|done].
    rewrite IHt, reverse_app. simpl. by rewrite insert_union_l.
Qed.

(** X12.  For a batch whose ids are pairwise distinct, the registry the
    pipeline leaves does not depend on the schedule: when the pipeline
    runs to its end with no request in between, the map is the map of
    the start with, under each batch id, that task's message (completed
    set), and the counter is untouched. *)
Theorem pipeline_result_schedule_independent
    (batch : list Task) (st : State) (acts : list action) (s : System) :
  NoDup (ID <$> batch) →
  Forall (λ a, is_pipeline a = true) acts →
  schedule acts (boot batch st) = Some s →
  pending s = 0%nat →
  tasks (globals s) = batch_records batch ∪ tasks st ∧
  taskIDCounter (globals s) = taskIDCounter st.
Proof.
  intros Hnd Hall Hrun Hdone.
  destruct (schedule_pipeline_globals _ _ _ Hall Hrun) as (ws & Hw & Hg).
  destruct (schedule_invariant _ _ _ Hrun) as (Hm & Hwr & _).
  destruct (pending_0 s Hdone) as (Hu & Hs & Hr).
  unfold messages in Hm. rewrite Hu, Hs in Hm. simpl in Hm, Hw, Hg.
  specialize (Hwr eq_refl). rewrite Hr in Hwr. simpl in Hwr.
  rewrite !app_nil_r in *. rewrite <- Hwr, Hw in Hm.
  destruct (apply_all_tasks ws st) as [Ht Hc].
  rewrite Hg. split; [|done]. rewrite Ht. f_equal.
  unfold batch_records. symmetry. apply list_to_map_proper.
  - rewrite <- list_fmap_compose. done.
  - rewrite reverse_Permutation, Hm, <- list_fmap_compose. done.
Qed.

Lemma pipeline_result_schedule_independent_witness :
  ∃ s,
    schedule [Spawn; Spawn; Send 1; Write; Spawn; Send 1; Write; Send 0; Write]
             (boot (startup_tasks 10 11 12) one_task_state) = Some s ∧
    tasks (globals s)
      = batch_records (startup_tasks 10 11 12) ∪ tasks one_task_state ∧
    taskIDCounter (globals s) = taskIDCounter one_task_state.
Proof.
  destruct (schedule _ _) as [s|] eqn:Hs.
  - exists s. split; [reflexivity|].
    apply (pipeline_result_schedule_independent
             (startup_tasks 10 11 12) one_task_state
             [Spawn; Spawn; Send 1; Write; Spawn; Send 1; Write; Send 0; Write]
             s).
    + by vm_compute; repeat constructor; set_unfold; try lia.
    + repeat constructor.
    + exact Hs.
    + vm_compute in Hs. injection Hs as <-. reflexivity.
  - vm_compute in Hs. discriminate.
Defined.

Lemma spawn_all (us : list Task) (s : System) :
  unspawned s = us →
  schedule (replicate (length us) Spawn) s
  = Some (mkSystem (globals s) [] (senders s ++ us) (received s)
                   (sent s) (written s)).
Proof.
  revert s. induction us as [|task us IH]; intros s Hu; simpl.
  - rewrite app_nil_r. destruct s. simpl in *. by subst.
  - rewrite Hu. rewrite IH by done. simpl. by rewrite <- app_assoc.
Qed.

Lemma deliver_in_order (order : list Task) (s : System) :
  received s = None → unspawned s = [] → order ≡ₚ senders s →
  ∃ acts s',
    Forall (λ a, is_pipeline a = true) acts ∧
    schedule acts s = Some s' ∧
    pending s' = 0%nat ∧
    sent s' = sent s ++ (processTask <$> order) ∧
    written s' = written s ++ (processTask <$> order).
Proof.
  revert s. induction order as [|task order IH]; intros s Hr Hu Hperm.
  - apply Permutation_nil_l in Hperm. exists [], s. simpl.
    unfold pending. rewrite Hr, Hu, <- Hperm, !app_nil_r. done.
  - assert (Hin : task ∈ senders s) by (rewrite <- Hperm; left).
    apply list_elem_of_lookup in Hin as [i Hi].
    set (s2 := mkSystem (applyCompletion (processTask task) (globals s)) []
                 (delete i (senders s)) None
                 (sent s ++ [processTask task])
                 (written s ++ [processTask task])).
    destruct (IH s2) as (acts & s' & Hall & Hrun & Hp & Hsent & Hwr);
      [done|done| |].
    { simpl. rewrite (delete_Permutation _ _ _ Hi) in Hperm.
      by apply Permutation_cons_inv in Hperm. }
    exists (Send i :: Write :: acts), s'. split_and!; [|  |done| |].
    + by repeat constructor.
    + simpl. rewrite Hr, Hi. simpl. rewrite Hu. exact Hrun.
    + rewrite Hsent. simpl. by rewrite <- app_assoc.
    + rewrite Hwr. simpl. by rewrite <- app_assoc.
Qed.

(** X13.  The goroutines can send in any order: for every arrangement of
    the batch there is a schedule of pipeline steps alone that runs the
    pipeline to its end and in which the messages go through the channel,
    and are written by the consumer, in exactly that arrangement. *)
Theorem pipeline_any_order
    (batch order : list Task) (st : State) :
  order ≡ₚ batch →
  ∃ acts s,
    Forall (λ a, is_pipeline a = true) acts ∧
    schedule acts (boot batch st) = Some s ∧
    pending s = 0%nat ∧
    sent s = processTask <$> order ∧
    written s = processTask <$> order.
Proof.
  intros Hperm.
  pose proof (spawn_all batch (boot batch st) eq_refl) as Hspawn.
  simpl in Hspawn.
  destruct (deliver_in_order order (mkSystem st [] batch None [] []))
    as (acts & s & Hall & Hrun & Hp & Hsent & Hwr); [done|done|done|].
  exists (replicate (length batch) Spawn ++ acts), s. split_and!; try done.
  - apply Forall_app. split; [by apply Forall_replicate|done].
  - by rewrite schedule_app, Hspawn.
Qed.

Lemma pipeline_any_order_witness :
  ∃ acts s,
    Forall (λ a, is_pipeline a = true) acts ∧
    schedule acts (boot (startup_tasks 10 11 12) initial_state) = Some s ∧
    pending s = 0%nat ∧
    sent s = processTask <$> reverse (startup_tasks 10 11 12) ∧
    written s = processTask <$> reverse (startup_tasks 10 11 12).
Proof.
  apply (pipeline_any_order (startup_tasks 10 11 12)
           (reverse (startup_tasks 10 11 12)) initial_state).
  apply reverse_Permutation.
Defined.

(** ** The pipeline among requests *)

Lemma serve_keeps_ids (r : request) (st : State) (id : Z) :
  is_Some (tasks st !! id) → is_Some (tasks (serve r st).1 !! id).
Proof.
  intros Hid.
  pose proof (exec_stored (Http r) st id eq_refl) as Hst.
  simpl in Hst. destruct (serve r st) as [st' resp]. simpl in *.
  apply Hst. by left.
Qed.

Lemma step_written_stored a s s' :
  step a s = Some s' →
  (∀ m, m ∈ written s → is_Some (tasks (globals s) !! ID m)) →
  ∀ m, m ∈ written s' → is_Some (tasks (globals s') !! ID m).
Proof.
  destruct a as [|i| |r]; simpl.
  - destruct (unspawned s); [done|]. by intros [= <-].
  - destruct (received s); [done|]. destruct (senders s !! i); [|done].
    by intros [= <-].
  - destruct (received s) as [task|]; [|done]. intros [= <-] Hinv m. simpl.
    rewrite elem_of_app, list_elem_of_singleton, lookup_insert.
    case_decide; [eauto|]. intros [Hm| ->]; [by apply Hinv|done].
  - intros [= <-] Hinv m Hm. simpl. by apply serve_keeps_ids, Hinv.
Qed.

Lemma schedule_written_stored acts s s' :
  schedule acts s = Some s' →
  (∀ m, m ∈ written s → is_Some (tasks (globals s) !! ID m)) →
  ∀ m, m ∈ written s' → is_Some (tasks (globals s') !! ID m).
Proof.
  revert s. induction acts as [|a acts IH]; intros s; simpl.
  - by intros [= <-].
  - destruct (step a s) as [s1|] eqn:Hstep; [|done]. intros Hrun Hinv.
    apply (IH s1 Hrun). by apply (step_written_stored a s s1).
Qed.

(** X14.  Once the pipeline has run to its end, every id of the batch is
    stored in the registry, whatever requests were served before, in
    between and after the pipeline's steps: no handler takes out what
    the consumer wrote. *)
Theorem batch_ids_stored_when_done
    (batch : list Task) (st : State) (acts : list action) (s : System) :
  schedule acts (boot batch st) = Some s →
  pending s = 0%nat →
  ∀ task, task ∈ batch → is_Some (tasks (globals s) !! ID task).
Proof.
  intros Hrun Hdone task Hin.
  destruct (schedule_invariant _ _ _ Hrun) as (Hm & Hwr & _).
  destruct (pending_0 s Hdone) as (Hu & Hs & Hr).
  unfold messages in Hm. rewrite Hu, Hs in Hm. simpl in Hm.
  specialize (Hwr eq_refl). rewrite Hr in Hwr. simpl in Hwr.
  rewrite !app_nil_r in *. rewrite <- Hwr in Hm.
  change (ID task) with (ID (processTask task)).
  apply (schedule_written_stored _ _ _ Hrun).
  - simpl. intros m Hm'. by apply elem_of_nil in Hm'.
  - rewrite Hm. by apply list_elem_of_fmap_2.
Qed.

Lemma batch_ids_stored_when_done_witness :
  ∃ s,
    schedule [Spawn; Spawn; Send 1; Write; Serve (DeleteTask "2"); Spawn;
              Send 0; Serve (CreateTask (Decoded sample_task) 20); Write;
              Send 0; Write; Serve (DeleteTask "3")]
             (boot (startup_tasks 10 11 12) initial_state) = Some s ∧
    ∀ task, task ∈ startup_tasks 10 11 12 →
            is_Some (tasks (globals s) !! ID task).
Proof.
  destruct (schedule _ _) as [s|] eqn:Hs.
  - exists s. split; [reflexivity|].
    apply (batch_ids_stored_when_done (startup_tasks 10 11 12) initial_state
             [Spawn; Spawn; Send 1; Write; Serve (DeleteTask "2"); Spawn;
              Send 0; Serve (CreateTask (Decoded sample_task) 20); Write;
              Send 0; Write; Serve (DeleteTask "3")] s Hs).
    vm_compute in Hs. injection Hs as <-. reflexivity.
  - vm_compute in Hs. discriminate.
Defined.

(** ** A returned record is a listed record *)

Lemma collect_elem_of (order : list (Z * Task)) (st : State) (task : Task) :
  range_order st order →
  task ∈ elems (collect order) ↔ ∃ id, tasks st !! id = Some task.
Proof.
  unfold range_order. intros Hord.
  rewrite collect_elems, Hord, list_elem_of_fmap. split.
  - intros ([id t] & -> & Hin). exists id. by apply elem_of_map_to_list.
  - intros [id Hid]. exists (id, task). split; [done|].
    by apply elem_of_map_to_list.
Qed.

(** X15.  The record a create or an update returns is the record stored:
    whenever a request is answered with the JSON of a task, a list served
    right after it, in whatever order [range] takes, contains exactly
    that record. *)
Theorem returned_record_is_listed
    (r : request) (st : State) (task : Task) (order : list (Z * Task)) :
  body (serve r st).2 = JSON (DTask task) →
  range_order (serve r st).1 order →
  task ∈ elems (collect order).
Proof.
  intros Hbody Hord.
  apply (collect_elem_of order (serve r st).1 task Hord).
  destruct r as [ord|[msg|t] now|[msg|t]|taskID]; simpl in *; try done.
  - injection Hbody as <-. eexists. apply lookup_insert_eq.
  - destruct (tasks st !! ID t) as [old|]; simpl in *; [|done].
    injection Hbody as <-. eexists. apply lookup_insert_eq.
  - by rewrite deleteTaskHandler_bad_request in Hbody.
Qed.

Lemma returned_record_is_listed_witness :
  mkTask 1 "A2" true 0
    ∈ elems (collect (map_to_list
        (tasks (serve (UpdateTask (Decoded (mkTask 1 "A2" true 9)))
                      one_task_state).1))).
Proof.
  apply (returned_record_is_listed
           (UpdateTask (Decoded (mkTask 1 "A2" true 9))) one_task_state
           (mkTask 1 "A2" true 0)).
  - reflexivity.
  - unfold range_order. reflexivity.
Defined.
